(** * rayopt: the catalog library (library.py) and the single-surface model

    Part I embeds [rayopt/library.py]: the sqlite-backed store of glass and
    lens catalogs with its in-memory cache of parsed objects.  The tables are
    lists of rows in the order the engine enumerates them, the cache is a
    finite map keyed by [(typ, id)], parsed objects live in a heap so that
    "the same object" means "the same address", and every method is a
    function from the library state to an outcome and a new state: a raised
    exception keeps the state reached so far.

    Part II models the surface operations exercised by
    [rayopt/tests/test_elements.py]. *)

From Stdlib Require Import Floats.
From Stdlib Require Import ZArith QArith String Ascii List Bool Lia.
From Stdlib Require Import Reals Lra RNsatz.
From stdpp Require Import base option list strings gmap relations.

Open Scope string_scope.

(** ** Python values and exceptions *)

Module Py.

(** The exceptions the modelled methods can raise. *)
Inductive exn : Type :=
| KeyError (msg : string)
| TypeError
| OSError
| OperationalError
| OtherError (msg : string).

Inductive result (A : Type) : Type :=
| Ok (a : A)
| Raise (e : exn).
Arguments Ok {A} a.
Arguments Raise {A} e.

(** [str.lower] on a byte string: only the 26 ASCII capitals change. *)
Definition lower_ascii (a : ascii) : ascii :=
  let n := nat_of_ascii a in
  if (65 <=? n)%nat && (n <=? 90)%nat then ascii_of_nat (n + 32) else a.

Fixpoint lower (s : string) : string :=
  match s with
  | EmptyString => EmptyString
  | String a r => String (lower_ascii a) (lower r)
  end.

(** [p.rfind(c)]: the index of the last [c], [None] for Python's [-1]. *)
Fixpoint rfind (c : ascii) (p : string) : option nat :=
  match p with
  | EmptyString => None
  | String a r =>
      match rfind c r with
      | Some i => Some (S i)
      | None => if Ascii.eqb a c then Some 0%nat else None
      end
  end.

(** [p[i:]] *)
Fixpoint drop_str (i : nat) (p : string) : string :=
  match i, p with
  | O, _ => p
  | S j, String _ r => drop_str j r
  | S _, EmptyString => EmptyString
  end.

(** Is there a character other than [c] in [p[i:j]]? *)
Fixpoint other_than (c : ascii) (i j : nat) (p : string) : bool :=
  match p with
  | EmptyString => false
  | String a r =>
      match j with
      | O => false
      | S j' =>
          match i with
          | O => negb (Ascii.eqb a c) || other_than c 0 j' r
          | S i' => other_than c i' j' r
          end
      end
  end.

(** [os.path.split(p)[1]] (posixpath): what follows the last slash. *)
Definition path_split_tail (p : string) : string :=
  match rfind "/" p with
  | Some i => drop_str (S i) p
  | None => p
  end.

(** [os.path.splitext(p)[1]] (genericpath._splitext with sep "/" and
    extsep "."): the text from the last dot on, provided that dot comes
    after the last slash and the file name does not consist of leading dots
    only up to it. *)
Definition path_splitext_ext (p : string) : string :=
  match rfind "." p with
  | None => EmptyString
  | Some dot =>
      let filename := match rfind "/" p with Some i => S i | None => O end in
      if (filename <=? dot)%nat && other_than "." filename dot p
      then drop_str dot p
      else EmptyString
  end.

(** Python 2 orders [None] below every number, so [x <= None] is false. *)
Definition float_le_cell (x : Q) (cell : option Q) : bool :=
  match cell with
  | Some d => Qle_bool x d
  | None => false
  end.

Definition int_eq_cell (x : Z) (cell : option Z) : bool :=
  match cell with
  | Some z => Z.eqb x z
  | None => false
  end.

(** Does [p] end with a slash? *)
Fixpoint ends_with_slash (p : string) : bool :=
  match p with
  | EmptyString => false
  | String a EmptyString => Ascii.eqb a "/"
  | String _ r => ends_with_slash r
  end.

(** [os.path.join(a, b)] (posixpath): an absolute [b] replaces [a]; else
    [b] is appended, after a slash unless [a] is empty or ends with one. *)
Definition path_join (a b : string) : string :=
  match b with
  | String "/" _ => b
  | _ =>
      if String.eqb a EmptyString || ends_with_slash a then a ++ b
      else a ++ "/" ++ b
  end.

End Py.

(** ** The store and the cache *)

Module Library.
Import Py.

(** A row of table [catalog]; the columns no method reads are left out. *)
Record catalog_row : Type := CatalogRow {
  cat_id : Z;
  cat_name : string;
  cat_format : string;
  cat_file : option string;
  cat_date : option Q;
  cat_size : option Z
}.

(** A row of table [glass] or [lens]: both are read through the same
    statements, with the table name substituted for [{0}]. *)
Record item_row : Type := ItemRow {
  item_id : Z;
  item_name : string;
  item_catalog : Z;
  item_data : option string
}.

(** [os.stat(fil)]: the two fields [load] reads. *)
Record stat_result : Type := Stat {
  st_mtime : Q;
  st_size : Z
}.

(** The collation [nocase] of the [name] columns folds ASCII capitals. *)
Definition nocase_eqb (a b : string) : bool := String.eqb (lower a) (lower b).

Definition file_is (fil : string) (c : catalog_row) : bool :=
  match cat_file c with
  | Some f => String.eqb f fil
  | None => false
  end.

Section WithCollaborators.

(** What a parser builds (a system or a material). *)
Variable Obj : Type.

(** The state every method works on: the three tables behind [self.cursor],
    [self.cache], the heap that holds the parsed objects, and what has been
    printed. *)
Record state : Type := State {
  catalog : list catalog_row;
  glass : list item_row;
  lens : list item_row;
  cache : gmap (string * Z) nat;
  heap : list Obj;
  stdout : list string
}.

Definition M (A : Type) : Type := state -> result A * state.

Definition ret {A} (a : A) : M A := fun st => (Ok a, st).
Definition raise {A} (e : exn) : M A := fun st => (Raise e, st).
Definition bind {A B} (m : M A) (k : A -> M B) : M B :=
  fun st =>
    match m st with
    | (Ok a, st') => k a st'
    | (Raise e, st') => (Raise e, st')
    end.

(** The format parsers and catalog loaders of rayopt.zemax and rayopt.oslo,
    and the file system: collaborators of this module. *)
Variable zmx_to_system agf_to_material olc_to_system len_to_system
  glc_to_material : option string -> result Obj.
Variable zmf_to_library agf_to_library olc_to_library glc_to_library :
  string -> M unit.
Variable os_stat : string -> option stat_result.

(** [Library.loaders] *)
Definition loaders (ext : string) : option (string -> M unit) :=
  if String.eqb ext ".zmf" then Some zmf_to_library
  else if String.eqb ext ".agf" then Some agf_to_library
  else if String.eqb ext ".dir" then Some olc_to_library
  else if String.eqb ext ".glc" then Some glc_to_library
  else None.

(** [Library.parsers] *)
Definition parsers (format : string) : option (option string -> result Obj) :=
  if String.eqb format "zmx" then Some zmx_to_system
  else if String.eqb format "agf" then Some agf_to_material
  else if String.eqb format "olc" then Some olc_to_system
  else if String.eqb format "len" then Some len_to_system
  else if String.eqb format "glc" then Some glc_to_material
  else None.

(** The table a statement with [{0}] replaced by [typ] reads: [glass] and
    [lens] are the item tables; with any other name the statement is not one
    over these tables and its execution is modelled as an SQL error. *)
Definition table (typ : string) (st : state) : option (list item_row) :=
  if String.eqb typ "glass" then Some (glass st)
  else if String.eqb typ "lens" then Some (lens st)
  else None.

(** [delete_catalog]: three deletes, children first. *)
Definition delete_catalog (id : Z) : M unit :=
  fun st =>
    (Ok tt,
     {| catalog := List.filter (fun c => negb (Z.eqb (cat_id c) id)) (catalog st);
        glass := List.filter (fun r => negb (Z.eqb (item_catalog r) id)) (glass st);
        lens := List.filter (fun r => negb (Z.eqb (item_catalog r) id)) (lens st);
        cache := cache st;
        heap := heap st;
        stdout := stdout st |}).

Definition print (line : string) : M unit :=
  fun st =>
    (Ok tt,
     {| catalog := catalog st; glass := glass st; lens := lens st;
        cache := cache st; heap := heap st;
        stdout := stdout st ++ [line] |}).

(** [select id, date, size from catalog where file = ?] then [fetchone]. *)
Definition select_catalog_by_file (fil : string) (st : state) : option catalog_row :=
  List.find (file_is fil) (catalog st).

(** [load] *)
Definition load (fil : string) (mode : string) : M unit :=
  let extl := lower (path_splitext_ext (path_split_tail fil)) in
  match loaders extl with
  | None => ret tt
  | Some loader =>
      let import := bind (print ("loading " ++ fil)) (fun _ => loader fil) in
      fun st =>
        match select_catalog_by_file fil st with
        | None => import st
        | Some res =>
            if String.eqb mode "refresh" then
              match os_stat fil with
              | None => (Raise OSError, st)
              | Some s =>
                  if float_le_cell (st_mtime s) (cat_date res)
                     || int_eq_cell (st_size s) (cat_size res)
                  then (Ok tt, st)
                  else bind (delete_catalog (cat_id res)) (fun _ => import) st
              end
            else if String.eqb mode "reload" then
              bind (delete_catalog (cat_id res)) (fun _ => import) st
            else import st
        end
  end.

(** The rows [select id from {0} where name = ?] yields. *)
Definition select_by_name (name : string) (rows : list item_row) : list Z :=
  map item_id (List.filter (fun r => nocase_eqb (item_name r) name) rows).

(** The rows of the join [{0}, catalog where {0}.catalog = catalog.id and
    {0}.name = ? and catalog.name = ?]. *)
Definition select_by_name_catalog (name cat : string)
    (rows : list item_row) (cats : list catalog_row) : list Z :=
  flat_map
    (fun r =>
       map (fun _ => item_id r)
         (List.filter
            (fun c => Z.eqb (item_catalog r) (cat_id c)
                      && nocase_eqb (item_name r) name
                      && nocase_eqb (cat_name c) cat)
            cats))
    rows.

(** The rows of [select data, format from {0}, catalog where {0}.id = ? and
    {0}.catalog = catalog.id]. *)
Definition select_data_format (id : Z)
    (rows : list item_row) (cats : list catalog_row) : list (option string * string) :=
  flat_map
    (fun r =>
       map (fun c => (item_data r, cat_format c))
         (List.filter
            (fun c => Z.eqb (item_id r) id && Z.eqb (item_catalog r) (cat_id c))
            cats))
    rows.

Definition alloc (typ : string) (id : Z) (obj : Obj) : M nat :=
  fun st =>
    let r := length (heap st) in
    (Ok r,
     {| catalog := catalog st; glass := glass st; lens := lens st;
        cache := <[(typ, id) := r]> (cache st);
        heap := heap st ++ [obj];
        stdout := stdout st |}).

(** [parse]: the cached object unless [reload], else the row is read,
    parsed, cached and returned. *)
Definition parse (typ : string) (id : Z) (reload : bool) : M nat :=
  fun st =>
    match (if reload then None else cache st !! (typ, id)) with
    | Some r => (Ok r, st)
    | None =>
        match table typ st with
        | None => (Raise OperationalError, st)
        | Some rows =>
            match head (select_data_format id rows (catalog st)) with
            | None => (Raise TypeError, st)
            | Some (data, format) =>
                match parsers format with
                | None => (Raise (KeyError format), st)
                | Some parser =>
                    match parser data with
                    | Raise e => (Raise e, st)
                    | Ok obj => alloc typ id obj st
                    end
                end
            end
        end
    end.

Definition not_found (typ name : string) (cat : option string) : string :=
  typ ++ " " ++ default "None" cat ++ "/" ++ name ++ " not found".

(** [get] *)
Definition get (typ name : string) (cat : option string) (reload : bool) : M nat :=
  fun st =>
    match table typ st with
    | None => (Raise OperationalError, st)
    | Some rows =>
        let res :=
          match cat with
          | None => head (select_by_name name rows)
          | Some c => head (select_by_name_catalog name c rows (catalog st))
          end in
        match res with
        | None => (Raise (KeyError (not_found typ name cat)), st)
        | Some id => parse typ id reload st
        end
    end.

(** *** Predicates of the statements *)

(** A row of the item table answers the request [name], [cat]: its name
    equals [name] up to ASCII case and, when a catalog name is given, it
    belongs to a catalog of that name. *)
Definition matches (name : string) (cat : option string) (st : state)
    (r : item_row) : Prop :=
  nocase_eqb (item_name r) name = true /\
  match cat with
  | None => True
  | Some c =>
      exists k, In k (catalog st) /\ cat_id k = item_catalog r /\
                nocase_eqb (cat_name k) c = true
  end.

(** The state [load] hands to the loader when it imports [fil] again: the
    old catalog [id] is gone and the notice is printed. *)
Definition reimport_state (fil : string) (id : Z) (st : state) : state :=
  snd (print ("loading " ++ fil) (snd (delete_catalog id st))).


(** *** Lemmas on the queries *)

Lemma head_None_nil {A} (l : list A) : head l = None -> l = [].
Proof. destruct l; [reflexivity | discriminate]. Qed.

Lemma select_by_name_empty name st rows :
  (forall r, In r rows -> ~ matches name None st r) ->
  select_by_name name rows = [].
Proof.
  intros Hno. unfold select_by_name.
  destruct (List.filter _ rows) as [|r l] eqn:E; [reflexivity|].
  exfalso. assert (Hin : In r (List.filter (fun r => nocase_eqb (item_name r) name) rows))
    by (rewrite E; left; reflexivity).
  apply filter_In in Hin as [Hin Hm].
  apply (Hno r Hin). split; [exact Hm | exact I].
Qed.

Lemma select_by_name_catalog_empty name c st rows :
  (forall r, In r rows -> ~ matches name (Some c) st r) ->
  select_by_name_catalog name c rows (catalog st) = [].
Proof.
  intros Hno. unfold select_by_name_catalog.
  destruct (flat_map _ rows) as [|i l] eqn:E; [reflexivity|].
  exfalso.
  assert (Hin : In i (i :: l)) by (left; reflexivity).
  rewrite <- E in Hin.
  apply in_flat_map in Hin as (r & Hr & Hi).
  apply in_map_iff in Hi as (k & _ & Hk).
  apply filter_In in Hk as [Hk Hb].
  apply andb_true_iff in Hb as [Hb Hc].
  apply andb_true_iff in Hb as [Hid Hn].
  apply (Hno r Hr). split; [exact Hn|].
  exists k. repeat split; [exact Hk | | exact Hc].
  symmetry. apply Z.eqb_eq. exact Hid.
Qed.

Lemma table_item typ st :
  typ = "glass" \/ typ = "lens" -> exists rows, table typ st = Some rows.
Proof. intros [-> | ->]; eexists; reflexivity. Qed.

(** *** Lemmas on the cache *)

Lemma parse_hit typ id r st :
  cache st !! (typ, id) = Some r -> parse typ id false st = (Ok r, st).
Proof. intros H. unfold parse. rewrite H. reflexivity. Qed.

Lemma parse_caches typ id reload r st st' :
  parse typ id reload st = (Ok r, st') -> cache st' !! (typ, id) = Some r.
Proof.
  unfold parse.
  destruct (if reload then None else cache st !! (typ, id)) as [r0|] eqn:Hc.
  - intros [= <- <-]. destruct reload; [discriminate | exact Hc].
  - destruct (table typ st) as [rows|]; [|discriminate].
    destruct (head _) as [[data format]|]; [|discriminate].
    destruct (parsers format) as [parser|]; [|discriminate].
    destruct (parser data) as [obj|e]; [|discriminate].
    unfold alloc. intros [= <- <-]. simpl. apply lookup_insert_eq.
Qed.




(** *** The lookup, the refresh rule and the cache *)

(** C8: for [typ] one of "glass" and "lens", whatever the name, the optional
    catalog name and [reload], [get] raises [KeyError] with the "not found"
    message as soon as no row of the table matches the request; nothing is
    returned in its place and the state (cache and heap included) is left as
    it was. *)
Theorem get_raises_not_found typ name cat reload st :
  typ = "glass" \/ typ = "lens" ->
  (forall rows r, table typ st = Some rows -> In r rows ->
                  ~ matches name cat st r) ->
  get typ name cat reload st = (Raise (KeyError (not_found typ name cat)), st).
Proof.
  intros Htyp Hno.
  destruct (table_item typ st Htyp) as [rows Hrows].
  unfold get. rewrite Hrows.
  destruct cat as [c|].
  - rewrite (select_by_name_catalog_empty name c st rows);
      [reflexivity | intros r; exact (Hno rows r Hrows)].
  - rewrite (select_by_name_empty name st rows);
      [reflexivity | intros r; exact (Hno rows r Hrows)].
Qed.

(** "The file on disk has changed" read as in C9: a newer
    modification time or a different size. *)
Definition changed_on_disk (s : stat_result) (date : Q) (size : Z) : Prop :=
  (date < st_mtime s)%Q \/ st_size s <> size.

(** What [load] tests under "refresh": a newer modification time and a
    different size. *)
Definition newer_and_resized (s : stat_result) (date : Q) (size : Z) : Prop :=
  (date < st_mtime s)%Q /\ st_size s <> size.

Lemma refresh_guard s date size :
  float_le_cell (st_mtime s) (Some date) || int_eq_cell (st_size s) (Some size)
  = false <-> newer_and_resized s date size.
Proof.
  unfold newer_and_resized. simpl. rewrite orb_false_iff. split.
  - intros [Hle Heq]. split.
    + apply Qnot_le_lt. intros H. apply Qle_bool_iff in H. congruence.
    + intros H. apply Z.eqb_eq in H. congruence.
  - intros [Hlt Hne]. split.
    + destruct (Qle_bool (st_mtime s) date) eqn:E; [|reflexivity].
      apply Qle_bool_iff in E. exfalso. exact (Qlt_not_le _ _ Hlt E).
    + apply Z.eqb_neq. exact Hne.
Qed.

(** C9, as the code has it: under "refresh", for a file with a registered
    extension whose catalog row is stored with a date and a size, [load]
    deletes the old catalog, prints the notice and runs the loader exactly
    when the file's modification time is newer than the stored date and its
    size differs from the stored size; in every other case it returns with
    the state untouched.  A file whose lower-cased extension has no loader
    is skipped in every mode. *)
Theorem load_refresh_rule fil st :
  let extl := lower (path_splitext_ext (path_split_tail fil)) in
  (loaders extl = None -> forall mode, load fil mode st = (Ok tt, st)) /\
  (forall loader res s date size,
      loaders extl = Some loader ->
      select_catalog_by_file fil st = Some res ->
      os_stat fil = Some s ->
      cat_date res = Some date -> cat_size res = Some size ->
      (newer_and_resized s date size ->
       load fil "refresh" st = loader fil (reimport_state fil (cat_id res) st)) /\
      (~ newer_and_resized s date size ->
       load fil "refresh" st = (Ok tt, st))).
Proof.
  intros extl. split.
  - intros Hext mode. unfold load. fold extl. rewrite Hext. reflexivity.
  - intros loader res s date size Hext Hres Hstat Hdate Hsize.
    assert (Hload : load fil "refresh" st =
      if float_le_cell (st_mtime s) (Some date) || int_eq_cell (st_size s) (Some size)
      then (Ok tt, st)
      else loader fil (reimport_state fil (cat_id res) st)).
    { unfold load. fold extl. rewrite Hext, Hres. simpl. rewrite Hstat, Hdate, Hsize.
      destruct (_ || _); reflexivity. }
    split; intros H.
    + apply refresh_guard in H. rewrite Hload, H. reflexivity.
    + rewrite Hload.
      destruct (_ || _) eqn:E; [reflexivity|].
      apply refresh_guard in E. contradiction.
Qed.


Lemma in_filter_other {A} (key : A -> Z) id (x : A) l :
  In x (List.filter (fun r => negb (Z.eqb (key r) id)) l) <-> In x l /\ key x <> id.
Proof.
  rewrite filter_In, negb_true_iff, Z.eqb_neq. reflexivity.
Qed.

(** [delete_catalog id] removes the catalog row [id] and every glass and
    lens row that belongs to it, keeps every other row, and touches neither
    the cache nor the heap. *)
Theorem delete_catalog_removes_its_rows id st :
  exists st', delete_catalog id st = (Ok tt, st') /\
    (forall c, In c (catalog st') <-> In c (catalog st) /\ cat_id c <> id) /\
    (forall r, In r (glass st') <-> In r (glass st) /\ item_catalog r <> id) /\
    (forall r, In r (lens st') <-> In r (lens st) /\ item_catalog r <> id) /\
    cache st' = cache st /\ heap st' = heap st.
Proof.
  eexists. split; [reflexivity|]. simpl.
  repeat apply conj; try reflexivity; intros x; apply in_filter_other.
Qed.

(** Under "reload" a file with a registered extension and a stored catalog
    row is always imported again, the old catalog deleted first, whatever
    is on disk; a file with no stored row is imported, in every mode, with
    nothing deleted. *)
Theorem load_reload_and_first_import fil st loader :
  loaders (lower (path_splitext_ext (path_split_tail fil))) = Some loader ->
  (forall res, select_catalog_by_file fil st = Some res ->
     load fil "reload" st = loader fil (reimport_state fil (cat_id res) st)) /\
  (select_catalog_by_file fil st = None ->
     forall mode, load fil mode st = loader fil (snd (print ("loading " ++ fil) st))).
Proof.
  intros Hext. split.
  - intros res Hres. unfold load. rewrite Hext, Hres. reflexivity.
  - intros Hres mode. unfold load. rewrite Hext, Hres. reflexivity.
Qed.

(** With [reload] set, [parse] does not look at the cache: whatever is
    cached, the row is read again.  When the call succeeds, the object it
    returns is the result of the registered parser on the data of the row
    the query yields, that object becomes the entry of [(typ, id)], and the
    outcome would have been the same with any other cache. *)
Theorem parse_reload_reads_the_row_again typ id r st st' :
  parse typ id true st = (Ok r, st') ->
  (exists rows data format parser obj,
     table typ st = Some rows /\
     head (select_data_format id rows (catalog st)) = Some (data, format) /\
     parsers format = Some parser /\ parser data = Ok obj /\
     heap st' !! r = Some obj /\ cache st' !! (typ, id) = Some r) /\
  (forall c,
     fst (parse typ id true
            {| catalog := catalog st; glass := glass st; lens := lens st;
               cache := c; heap := heap st; stdout := stdout st |})
     = Ok r).
Proof.
  unfold parse, table. simpl.
  destruct (if String.eqb typ "glass" then Some (glass st)
            else if String.eqb typ "lens" then Some (lens st) else None)
    as [rows|] eqn:Ht; [|discriminate].
  destruct (head _) as [[data format]|] eqn:Hrow; [|discriminate].
  destruct (parsers format) as [parser|] eqn:Hp; [|discriminate].
  destruct (parser data) as [obj|e] eqn:Hobj; [|discriminate].
  unfold alloc. intros [= <- <-]. simpl. split; [|reflexivity].
  exists rows, data, format, parser, obj.
  repeat split; try assumption.
  - apply list_lookup_middle. reflexivity.
  - apply lookup_insert_eq.
Qed.

(** What [get] returns is the parse of a row that answers the request. *)
Theorem get_returns_a_matching_row typ name cat reload r st st' :
  get typ name cat reload st = (Ok r, st') ->
  exists rows row,
    table typ st = Some rows /\ In row rows /\ matches name cat st row /\
    parse typ (item_id row) reload st = (Ok r, st').
Proof.
  unfold get. destruct (table typ st) as [rows|]; [|discriminate].
  destruct cat as [c|].
  - destruct (select_by_name_catalog name c rows (catalog st)) as [|i l] eqn:E;
      [discriminate|].
    simpl. intros Hp.
    assert (Hin : In i (select_by_name_catalog name c rows (catalog st)))
      by (rewrite E; left; reflexivity).
    apply in_flat_map in Hin as (row & Hrow & Hi).
    apply in_map_iff in Hi as (k & <- & Hk).
    apply filter_In in Hk as [Hk Hb].
    apply andb_true_iff in Hb as [Hb Hc].
    apply andb_true_iff in Hb as [Hid Hn].
    exists rows, row. repeat split; try assumption.
    exists k. repeat split; try assumption.
    symmetry. apply Z.eqb_eq. exact Hid.
  - destruct (select_by_name name rows) as [|i l] eqn:E; [discriminate|].
    simpl. intros Hp.
    assert (Hin : In i (select_by_name name rows))
      by (rewrite E; left; reflexivity).
    apply in_map_iff in Hin as (row & <- & Hrow).
    apply filter_In in Hrow as [Hrow Hn].
    exists rows, row. repeat split; assumption.
Qed.

(** *** What the lookups leave alone, and how they repeat *)

Lemma parse_rows typ id reload res st st' :
  parse typ id reload st = (res, st') ->
  catalog st' = catalog st /\ glass st' = glass st /\ lens st' = lens st /\
  stdout st' = stdout st.
Proof.
  unfold parse.
  destruct (if reload then None else cache st !! (typ, id)) as [r0|];
    [intros [= _ <-]; auto|].
  destruct (table typ st) as [rows|]; [|intros [= _ <-]; auto].
  destruct (head _) as [[data format]|]; [|intros [= _ <-]; auto].
  destruct (parsers format) as [parser|]; [|intros [= _ <-]; auto].
  destruct (parser data) as [obj|e]; [|intros [= _ <-]; auto].
  unfold alloc. intros [= _ <-]. simpl. auto.
Qed.

Lemma parse_fails_in_place typ id reload e st st' :
  parse typ id reload st = (Raise e, st') -> st' = st.
Proof.
  unfold parse.
  destruct (if reload then None else cache st !! (typ, id)) as [r0|];
    [discriminate|].
  destruct (table typ st) as [rows|]; [|intros [= _ <-]; reflexivity].
  destruct (head _) as [[data format]|]; [|intros [= _ <-]; reflexivity].
  destruct (parsers format) as [parser|]; [|intros [= _ <-]; reflexivity].
  destruct (parser data) as [obj|e']; [|intros [= _ <-]; reflexivity].
  unfold alloc. discriminate.
Qed.

(** The id [get] settles on: the first row the query yields. *)
Definition chosen_id (name : string) (cat : option string)
    (rows : list item_row) (cats : list catalog_row) : option Z :=
  match cat with
  | None => head (select_by_name name rows)
  | Some c => head (select_by_name_catalog name c rows cats)
  end.

Lemma get_unfold typ name cat reload st :
  get typ name cat reload st =
  match table typ st with
  | None => (Raise OperationalError, st)
  | Some rows =>
      match chosen_id name cat rows (catalog st) with
      | None => (Raise (KeyError (not_found typ name cat)), st)
      | Some id => parse typ id reload st
      end
  end.
Proof. unfold get, chosen_id. destruct (table typ st), cat; reflexivity. Qed.

Lemma table_same typ st st' :
  glass st' = glass st -> lens st' = lens st -> table typ st' = table typ st.
Proof. intros Hg Hl. unfold table. rewrite Hg, Hl. reflexivity. Qed.

Lemma chosen_id_nocase name name' cat cat' rows cats :
  lower name = lower name' ->
  option_map lower cat = option_map lower cat' ->
  chosen_id name cat rows cats = chosen_id name' cat' rows cats.
Proof.
  intros Hn Hc. unfold chosen_id.
  assert (Hname : forall r, nocase_eqb (item_name r) name
                            = nocase_eqb (item_name r) name')
    by (intros r; unfold nocase_eqb; rewrite Hn; reflexivity).
  destruct cat as [c|], cat' as [c'|]; try discriminate.
  - injection Hc as Hc. f_equal. unfold select_by_name_catalog.
    apply flat_map_ext. intros r. f_equal. apply filter_ext. intros k.
    unfold nocase_eqb at 2 4. rewrite Hname, Hc. reflexivity.
  - f_equal. unfold select_by_name. f_equal. apply filter_ext. exact Hname.
Qed.

(** A lookup that raises (no such row, no parser for the format, a parser
    error, an unknown table) leaves the library exactly as it was: neither
    the cache nor the heap keeps a trace of the attempt. *)
Theorem failed_lookup_changes_nothing typ id name cat reload e st st' :
  parse typ id reload st = (Raise e, st') \/
  get typ name cat reload st = (Raise e, st') ->
  st' = st.
Proof.
  intros [Hp | Hg].
  - exact (parse_fails_in_place _ _ _ _ _ _ Hp).
  - rewrite get_unfold in Hg.
    destruct (table typ st) as [rows|]; [|injection Hg as _ <-; reflexivity].
    destruct (chosen_id name cat rows (catalog st)) as [i|];
      [|injection Hg as _ <-; reflexivity].
    exact (parse_fails_in_place _ _ _ _ _ _ Hg).
Qed.

(** [parse] and [get] only read the tables: whatever they return, the rows
    of [catalog], [glass] and [lens] and the printed output are as before. *)
Theorem lookup_never_writes_rows typ id name cat reload res st st' :
  parse typ id reload st = (res, st') \/
  get typ name cat reload st = (res, st') ->
  catalog st' = catalog st /\ glass st' = glass st /\ lens st' = lens st /\
  stdout st' = stdout st.
Proof.
  intros [Hp | Hg].
  - exact (parse_rows _ _ _ _ _ _ Hp).
  - rewrite get_unfold in Hg.
    destruct (table typ st) as [rows|]; [|injection Hg as _ <-; auto].
    destruct (chosen_id name cat rows (catalog st)) as [i|];
      [|injection Hg as _ <-; auto].
    exact (parse_rows _ _ _ _ _ _ Hg).
Qed.

(** Asking again gives the same object: after a [get] that succeeded (with
    or without [reload]), the same [get] with [reload] false returns the
    same address and changes nothing any more. *)
Theorem get_again_returns_same_object typ name cat reload r st st' :
  get typ name cat reload st = (Ok r, st') ->
  get typ name cat false st' = (Ok r, st').
Proof.
  intros Hg. rewrite get_unfold in Hg. rewrite get_unfold.
  destruct (table typ st) as [rows|] eqn:Ht; [|discriminate].
  destruct (chosen_id name cat rows (catalog st)) as [i|] eqn:Hi; [|discriminate].
  destruct (parse_rows _ _ _ _ _ _ Hg) as (Hc & Hgl & Hl & _).
  rewrite (table_same typ st st' Hgl Hl), Ht, Hc, Hi.
  apply parse_hit. exact (parse_caches _ _ _ _ _ _ Hg).
Qed.

(** The lookup is blind to ASCII case, in the item's name and in the
    catalog's: two requests that agree after lower-casing find the same
    object and leave the same state. *)
Theorem get_ignores_case typ name name' cat cat' reload r st st' :
  lower name = lower name' ->
  option_map lower cat = option_map lower cat' ->
  get typ name cat reload st = (Ok r, st') ->
  get typ name' cat' reload st = (Ok r, st').
Proof.
  intros Hn Hc. rewrite !get_unfold.
  destruct (table typ st) as [rows|]; [|discriminate].
  rewrite <- (chosen_id_nocase name name' cat cat' rows (catalog st) Hn Hc).
  destruct (chosen_id name cat rows (catalog st)); [auto | discriminate].
Qed.

Lemma matches_after_delete name cat id st r :
  matches name cat (snd (delete_catalog id st)) r -> matches name cat st r.
Proof.
  intros [Hn Hc]. split; [exact Hn|].
  destruct cat as [c|]; [|exact I].
  destruct Hc as (k & Hk & Hid & Hcn). exists k. split; [|auto].
  simpl in Hk. apply in_filter_other in Hk. destruct Hk as [Hk _]. exact Hk.
Qed.

(** Once a catalog is deleted, what only it held can no longer be got:
    if every row answering the request belongs to catalog [id], then after
    [delete_catalog id] the request raises "not found", whether or not the
    object is still in the cache. *)
Theorem get_after_delete_catalog typ name cat reload id st :
  typ = "glass" \/ typ = "lens" ->
  (forall rows row, table typ st = Some rows -> In row rows ->
                    matches name cat st row -> item_catalog row = id) ->
  let st' := snd (delete_catalog id st) in
  get typ name cat reload st' = (Raise (KeyError (not_found typ name cat)), st').
Proof using Type.
  intros Htyp Honly st'.
  assert (Hno : forall rows' r, table typ st' = Some rows' -> In r rows' ->
                                ~ matches name cat st' r).
  { intros rows' r Ht Hin Hm.
    apply matches_after_delete in Hm.
    destruct Htyp as [E | E]; rewrite E in Ht; injection Ht as Ht;
      rewrite <- Ht in Hin; simpl in Hin;
      apply in_filter_other in Hin as [Hin Hne];
      apply Hne; [apply (Honly (glass st) r) | apply (Honly (lens st) r)];
      try assumption; rewrite E; reflexivity. }
  destruct (table_item typ st' Htyp) as [rows' Hrows].
  unfold get. rewrite Hrows.
  destruct cat as [c|].
  - rewrite (select_by_name_catalog_empty name c st' rows');
      [reflexivity | intros r; exact (Hno rows' r Hrows)].
  - rewrite (select_by_name_empty name st' rows');
      [reflexivity | intros r; exact (Hno rows' r Hrows)].
Qed.

(** *** The schema's constraints *)

(** What [db_init] declares: [id] is the primary key of each table, and the
    [catalog] column of [glass] and [lens] references [catalog(id)], with
    foreign keys switched on. *)
Definition keys_unique (st : state) : Prop :=
  List.NoDup (map cat_id (catalog st)) /\
  List.NoDup (map item_id (glass st)) /\
  List.NoDup (map item_id (lens st)).

Definition references_kept (st : state) : Prop :=
  forall r, In r (glass st) \/ In r (lens st) ->
            exists c, In c (catalog st) /\ cat_id c = item_catalog r.

Definition consistent (st : state) : Prop := keys_unique st /\ references_kept st.

Lemma NoDup_map_filter {A} (key : A -> Z) (p : A -> bool) l :
  List.NoDup (map key l) -> List.NoDup (map key (List.filter p l)).
Proof.
  induction l as [|a l IH]; simpl; intros Hnd; [exact Hnd|].
  apply List.NoDup_cons_iff in Hnd as [Hnotin Hnd].
  destruct (p a); [|exact (IH Hnd)].
  simpl. apply List.NoDup_cons_iff. split; [|exact (IH Hnd)].
  intros Hin. apply Hnotin.
  apply in_map_iff in Hin as (x & Hx & Hin).
  apply filter_In in Hin as [Hin _].
  apply in_map_iff. exists x. split; assumption.
Qed.

Lemma filter_none {A} (p : A -> bool) l :
  (forall x, In x l -> p x = false) -> List.filter p l = [].
Proof.
  induction l as [|a l IH]; simpl; intros H; [reflexivity|].
  rewrite (H a (or_introl eq_refl)). apply IH. intros x Hx. apply H. right. exact Hx.
Qed.

Lemma filter_by_key {A} (key : A -> Z) (x : A) l :
  List.NoDup (map key l) -> In x l ->
  List.filter (fun y => Z.eqb (key x) (key y)) l = [x].
Proof.
  induction l as [|a l IH]; simpl; intros Hnd Hin; [contradiction|].
  apply List.NoDup_cons_iff in Hnd as [Hnotin Hnd].
  destruct Hin as [-> | Hin].
  - rewrite Z.eqb_refl. f_equal. apply filter_none.
    intros y Hy. apply Z.eqb_neq. intros Heq. apply Hnotin.
    rewrite Heq. apply in_map. exact Hy.
  - assert (Hne : key x <> key a).
    { intros Heq. apply Hnotin. rewrite <- Heq. apply in_map. exact Hin. }
    apply Z.eqb_neq in Hne. rewrite Hne. exact (IH Hnd Hin).
Qed.

Lemma flat_map_none {A B} (f : A -> list B) l :
  (forall x, In x l -> f x = []) -> flat_map f l = [].
Proof.
  induction l as [|a l IH]; simpl; intros H; [reflexivity|].
  rewrite (H a (or_introl eq_refl)). apply IH. intros x Hx. apply H. right. exact Hx.
Qed.

Lemma select_data_format_unique row c rows cats :
  List.NoDup (map item_id rows) -> List.NoDup (map cat_id cats) ->
  In row rows -> In c cats -> cat_id c = item_catalog row ->
  select_data_format (item_id row) rows cats = [(item_data row, cat_format c)].
Proof.
  intros Hrows Hcats Hrow Hc Hfk. unfold select_data_format.
  induction rows as [|a rows IH]; simpl; [contradiction|].
  apply List.NoDup_cons_iff in Hrows as [Hnotin Hrows].
  destruct Hrow as [-> | Hrow].
  - rewrite <- app_nil_r. f_equal.
    + rewrite (filter_ext _ (fun k => Z.eqb (cat_id c) (cat_id k))).
      * rewrite (filter_by_key cat_id c cats Hcats Hc). reflexivity.
      * intros k. rewrite Z.eqb_refl, Hfk. reflexivity.
    + apply flat_map_none. intros r Hr.
      rewrite filter_none; [reflexivity|].
      intros k _. apply andb_false_intro1. apply Z.eqb_neq.
      intros Heq. apply Hnotin. rewrite <- Heq. apply in_map. exact Hr.
  - rewrite filter_none.
    + simpl. exact (IH Hrows Hrow).
    + intros k _. apply andb_false_intro1. apply Z.eqb_neq.
      intros Heq. apply Hnotin. rewrite Heq. apply in_map. exact Hrow.
Qed.

(** With ids as primary keys, [parse] reads the one row with the id asked
    for: when the entry is to be (re)built, the parser registered for the
    format of that row's catalog is run on that row's data, and the result
    is appended to the heap and cached under [(typ, id)]. *)
Theorem parse_reads_the_row typ row c parser obj reload rows st :
  keys_unique st ->
  table typ st = Some rows -> In row rows ->
  In c (catalog st) -> cat_id c = item_catalog row ->
  parsers (cat_format c) = Some parser -> parser (item_data row) = Ok obj ->
  reload = true \/ cache st !! (typ, item_id row) = None ->
  exists st',
    parse typ (item_id row) reload st = (Ok (length (heap st)), st') /\
    heap st' = (heap st ++ [obj])%list /\
    cache st' = <[(typ, item_id row) := length (heap st)]> (cache st).
Proof.
  intros (Hcats & Hgl & Hl) Ht Hrow Hc Hfk Hp Hobj Hmiss.
  assert (Hrows : List.NoDup (map item_id rows)).
  { unfold table in Ht.
    destruct (String.eqb typ "glass"); [injection Ht as <-; exact Hgl|].
    destruct (String.eqb typ "lens"); [injection Ht as <-; exact Hl|discriminate]. }
  eexists. unfold parse.
  replace (if reload then None else cache st !! (typ, item_id row))
    with (@None nat) by (destruct Hmiss as [-> | ->]; [|destruct reload]; reflexivity).
  rewrite Ht, (select_data_format_unique row c rows (catalog st) Hrows Hcats Hrow Hc Hfk).
  simpl. rewrite Hp, Hobj. unfold alloc. simpl. auto.
Qed.

(** The two ways a row can let [parse] down, when the entry has to be
    built: an id that no row of the table carries makes it raise
    [TypeError] (there is no row to index), and a row whose catalog has a
    format without registered parser makes it raise [KeyError] with that
    format, not a "not found" message.  Either way the state is kept. *)
Theorem parse_without_row_or_parser typ id reload rows st :
  table typ st = Some rows ->
  reload = true \/ cache st !! (typ, id) = None ->
  ((forall row, In row rows -> item_id row <> id) ->
   parse typ id reload st = (Raise TypeError, st)) /\
  (forall row c,
     keys_unique st -> In row rows -> item_id row = id ->
     In c (catalog st) -> cat_id c = item_catalog row ->
     parsers (cat_format c) = None ->
     parse typ id reload st = (Raise (KeyError (cat_format c)), st)).
Proof.
  intros Ht Hmiss.
  assert (Hc : (if reload then None else cache st !! (typ, id)) = @None nat)
    by (destruct Hmiss as [-> | ->]; [|destruct reload]; reflexivity).
  split.
  - intros Hno. unfold parse, select_data_format. rewrite Hc, Ht.
    rewrite (flat_map_none _ rows); [reflexivity|].
    intros r Hr. rewrite filter_none; [reflexivity|].
    intros k _. apply andb_false_intro1. apply Z.eqb_neq. exact (Hno r Hr).
  - intros row c (Hcats & Hgl & Hl) Hrow Hid Hcin Hfk Hp.
    assert (Hrows : List.NoDup (map item_id rows)).
    { unfold table in Ht.
      destruct (String.eqb typ "glass"); [injection Ht as <-; exact Hgl|].
      destruct (String.eqb typ "lens"); [injection Ht as <-; exact Hl|discriminate]. }
    unfold parse. rewrite Hc, Ht, <- Hid.
    rewrite (select_data_format_unique row c rows (catalog st) Hrows Hcats Hrow Hcin Hfk).
    simpl. rewrite Hp. reflexivity.
Qed.

(** [delete_catalog] keeps the schema's constraints: ids stay unique, and
    since the rows of the deleted catalog go with it, no glass or lens row
    is left without its catalog. *)
Theorem delete_catalog_keeps_consistency id st :
  consistent st -> consistent (snd (delete_catalog id st)).
Proof.
  intros [(Hc & Hg & Hl) Hfk]. split.
  - repeat split; simpl; apply NoDup_map_filter; assumption.
  - intros r Hr. simpl in Hr.
    assert (Hin : (In r (glass st) \/ In r (lens st)) /\ item_catalog r <> id).
    { destruct Hr as [Hr | Hr]; apply in_filter_other in Hr; tauto. }
    destruct Hin as [Hin Hne].
    destruct (Hfk r Hin) as (c & Hcin & Hcid).
    exists c. split; [|exact Hcid].
    simpl. apply in_filter_other. split; [exact Hcin | congruence].
Qed.

(** *** Loading whole directories *)

(** [os.listdir(path)]: the names in a directory, [None] when it cannot be
    listed (OSError). *)
Variable os_listdir : string -> option (list string).

(** The inner loop of [load_all]: each name of the directory is loaded; a
    [KeyError] is caught and the loop goes on, any other exception ends
    it. *)
Fixpoint load_dir (path : string) (names : list string) (mode : string) : M unit :=
  match names with
  | [] => ret tt
  | i :: rest =>
      fun st =>
        match load (path_join path i) mode st with
        | (Ok _, st') => load_dir path rest mode st'
        | (Raise (KeyError _), st') => load_dir path rest mode st'
        | (Raise e, st') => (Raise e, st')
        end
  end.

(** [load_all(paths, **kwargs)]: [kwargs] carries at most [mode], which
    [load] defaults to "refresh". *)
Fixpoint load_all (paths : list string) (kwargs : option string) : M unit :=
  match paths with
  | [] => ret tt
  | path :: rest =>
      fun st =>
        match os_listdir path with
        | None => (Raise OSError, st)
        | Some names =>
            match load_dir path names (default "refresh" kwargs) st with
            | (Ok _, st') => load_all rest kwargs st'
            | (Raise e, st') => (Raise e, st')
            end
        end
  end.





Lemma load_dir_skips path names mode st :
  (forall i, In i names ->
     loaders (lower (path_splitext_ext (path_split_tail (path_join path i)))) = None) ->
  load_dir path names mode st = (Ok tt, st).
Proof.
  induction names as [|i rest IH]; intros Hext; simpl; [reflexivity|].
  unfold load at 1. rewrite (Hext i (or_introl eq_refl)). simpl.
  apply IH. intros j Hj. apply Hext. right. exact Hj.
Qed.

(** Directories that hold no file with a registered extension leave the
    library as it was, in every mode: nothing is read from the tables,
    deleted or printed. *)
Theorem load_all_skips_other_files paths kwargs st :
  (forall path, In path paths -> exists names,
     os_listdir path = Some names /\
     forall i, In i names ->
       loaders (lower (path_splitext_ext (path_split_tail (path_join path i))))
       = None) ->
  load_all paths kwargs st = (Ok tt, st).
Proof.
  induction paths as [|path rest IH]; intros H; simpl; [reflexivity|].
  destruct (H path (or_introl eq_refl)) as (names & Hls & Hext).
  rewrite Hls, (load_dir_skips path names _ st Hext).
  apply IH. intros q Hq. apply H. right. exact Hq.
Qed.

(** Loading two lists of directories in one call is loading the first list
    and then, if that ended normally, the second: what the first list
    imported stays imported when a later directory fails. *)
Theorem load_all_app paths1 paths2 kwargs st :
  load_all (paths1 ++ paths2)%list kwargs st
  = bind (load_all paths1 kwargs) (fun _ => load_all paths2 kwargs) st.
Proof.
  revert st. induction paths1 as [|path rest IH]; intros st; simpl.
  - reflexivity.
  - unfold bind at 1. simpl.
    destruct (os_listdir path) as [names|]; [|reflexivity].
    destruct (load_dir path names (default "refresh" kwargs) st) as [[u|e] st1];
      [|reflexivity].
    rewrite IH. reflexivity.
Qed.

(** *** Rows without date or size, files that are gone *)

Definition newer_than_cell (s : stat_result) (cell : option Q) : Prop :=
  match cell with
  | Some date => (date < st_mtime s)%Q
  | None => True
  end.

Definition size_differs_from_cell (s : stat_result) (cell : option Z) : Prop :=
  match cell with
  | Some size => st_size s <> size
  | None => True
  end.

Lemma Qle_bool_false x y : Qle_bool x y = false <-> (y < x)%Q.
Proof.
  split.
  - intros H. apply Qnot_le_lt. intros Hle. apply Qle_bool_iff in Hle. congruence.
  - intros Hlt. destruct (Qle_bool x y) eqn:E; [|reflexivity].
    apply Qle_bool_iff in E. exfalso. exact (Qlt_not_le _ _ Hlt E).
Qed.

Lemma refresh_guard_cells s date size :
  float_le_cell (st_mtime s) date || int_eq_cell (st_size s) size = false
  <-> newer_than_cell s date /\ size_differs_from_cell s size.
Proof.
  destruct date as [d|], size as [z|]; simpl.
  - exact (refresh_guard s d z).
  - rewrite orb_false_r, Qle_bool_false. tauto.
  - rewrite Z.eqb_neq. tauto.
  - tauto.
Qed.

(** Under "refresh", a catalog row stored without a date counts as older
    than any file and one stored without a size as of another size: the
    file is imported again exactly when it is newer than the stored date,
    if there is one, and of another size than the stored one, if there is
    one. *)
Theorem load_refresh_with_empty_cells fil st loader res s :
  loaders (lower (path_splitext_ext (path_split_tail fil))) = Some loader ->
  select_catalog_by_file fil st = Some res ->
  os_stat fil = Some s ->
  (newer_than_cell s (cat_date res) /\ size_differs_from_cell s (cat_size res) ->
   load fil "refresh" st = loader fil (reimport_state fil (cat_id res) st)) /\
  (~ (newer_than_cell s (cat_date res) /\ size_differs_from_cell s (cat_size res)) ->
   load fil "refresh" st = (Ok tt, st)).
Proof.
  intros Hext Hres Hstat.
  assert (Hload : load fil "refresh" st =
    if float_le_cell (st_mtime s) (cat_date res)
       || int_eq_cell (st_size s) (cat_size res)
    then (Ok tt, st)
    else loader fil (reimport_state fil (cat_id res) st)).
  { unfold load. rewrite Hext, Hres. simpl. rewrite Hstat.
    destruct (_ || _); reflexivity. }
  split; intros H.
  - apply refresh_guard_cells in H. rewrite Hload, H. reflexivity.
  - rewrite Hload. destruct (_ || _) eqn:E; [reflexivity|].
    apply refresh_guard_cells in E. contradiction.
Qed.

(** Under "refresh" a recorded file that is gone from the disk makes
    [load] raise [OSError] before anything is deleted or printed; in every
    other mode the same call goes through without the file being looked
    at. *)
Theorem load_of_a_vanished_file fil st loader res :
  loaders (lower (path_splitext_ext (path_split_tail fil))) = Some loader ->
  select_catalog_by_file fil st = Some res ->
  os_stat fil = None ->
  load fil "refresh" st = (Raise OSError, st) /\
  load fil "reload" st = loader fil (reimport_state fil (cat_id res) st) /\
  load fil "add" st = loader fil (snd (print ("loading " ++ fil) st)).
Proof.
  intros Hext Hres Hstat. unfold load. rewrite Hext, Hres. simpl.
  rewrite Hstat. repeat split.
Qed.

(** *** The cache across calls *)

(** A step that leaves [self.cache] as it is. *)
Definition leaves_cache {A} (f : M A) : Prop :=
  forall st, cache (snd (f st)) = cache st.

(** What is asked of the four catalog loaders, which receive the library
    itself: they write rows and leave [self.cache] alone. *)
Definition loaders_leave_cache : Prop :=
  forall fil,
    leaves_cache (zmf_to_library fil) /\ leaves_cache (agf_to_library fil) /\
    leaves_cache (olc_to_library fil) /\ leaves_cache (glc_to_library fil).

(** The calls a user makes on a library. *)
Inductive call : Type :=
| CallParse (typ : string) (id : Z) (reload : bool)
| CallGet (typ name : string) (cat : option string) (reload : bool)
| CallDeleteCatalog (id : Z)
| CallLoad (fil mode : string)
| CallLoadAll (paths : list string) (kwargs : option string).

(** The state a call leaves, whether it returned or raised. *)
Definition perform (st : state) (c : call) : state :=
  match c with
  | CallParse typ id reload => snd (parse typ id reload st)
  | CallGet typ name cat reload => snd (get typ name cat reload st)
  | CallDeleteCatalog id => snd (delete_catalog id st)
  | CallLoad fil mode => snd (load fil mode st)
  | CallLoadAll paths kwargs => snd (load_all paths kwargs st)
  end.

Lemma leaves_bind {A B} (m : M A) (k : A -> M B) :
  leaves_cache m -> (forall a, leaves_cache (k a)) -> leaves_cache (bind m k).
Proof.
  intros Hm Hk st. unfold bind. pose proof (Hm st) as H1.
  destruct (m st) as [[a|e] st1]; simpl in *; [|exact H1].
  rewrite (Hk a st1). exact H1.
Qed.

Lemma leaves_loader ext loader fil :
  loaders_leave_cache -> loaders ext = Some loader -> leaves_cache (loader fil).
Proof.
  intros H. destruct (H fil) as (H1 & H2 & H3 & H4). unfold loaders.
  repeat (destruct (String.eqb ext _); [intros [= <-]; assumption|]).
  discriminate.
Qed.

Lemma leaves_load fil mode : loaders_leave_cache -> leaves_cache (load fil mode).
Proof.
  intros H. unfold load.
  destruct (loaders _) as [loader|] eqn:Hext; [|intros st; reflexivity].
  assert (Himport : leaves_cache
            (bind (print ("loading " ++ fil)) (fun _ => loader fil))).
  { apply leaves_bind; [intros st; reflexivity|].
    intros _. exact (leaves_loader _ _ fil H Hext). }
  assert (Hagain : forall id, leaves_cache
            (bind (delete_catalog id)
               (fun _ => bind (print ("loading " ++ fil)) (fun _ => loader fil)))).
  { intros id. apply leaves_bind; [intros st; reflexivity|].
    intros _. exact Himport. }
  intros st.
  destruct (select_catalog_by_file fil st) as [res|]; [|exact (Himport st)].
  destruct (String.eqb mode "refresh").
  - destruct (os_stat fil) as [s|]; [|reflexivity].
    destruct (_ || _); [reflexivity|]. exact (Hagain _ st).
  - destruct (String.eqb mode "reload"); [exact (Hagain _ st) | exact (Himport st)].
Qed.

Lemma leaves_load_dir path names mode :
  loaders_leave_cache -> leaves_cache (load_dir path names mode).
Proof.
  intros H. induction names as [|i rest IH]; intros st; simpl; [reflexivity|].
  pose proof (leaves_load (path_join path i) mode H st) as H1.
  destruct (load (path_join path i) mode st) as [[u|e] st1]; simpl in *.
  - rewrite (IH st1). exact H1.
  - destruct e; simpl; try exact H1. rewrite (IH st1). exact H1.
Qed.

Lemma leaves_load_all paths kwargs :
  loaders_leave_cache -> leaves_cache (load_all paths kwargs).
Proof.
  intros H. induction paths as [|path rest IH]; intros st; simpl; [reflexivity|].
  destruct (os_listdir path) as [names|]; [|reflexivity].
  pose proof (leaves_load_dir path names (default "refresh" kwargs) H st) as H1.
  destruct (load_dir path names (default "refresh" kwargs) st)
    as [[u|e] st1]; simpl in *; [|exact H1].
  rewrite (IH st1). exact H1.
Qed.

Lemma parse_keeps_cached typ id reload st k :
  is_Some (cache st !! k) -> is_Some (cache (snd (parse typ id reload st)) !! k).
Proof.
  intros Hk. unfold parse.
  destruct (if reload then None else cache st !! (typ, id)) as [r0|];
    [exact Hk|].
  destruct (table typ st) as [rows|]; [|exact Hk].
  destruct (head _) as [[data format]|]; [|exact Hk].
  destruct (parsers format) as [parser|]; [|exact Hk].
  destruct (parser data) as [obj|e]; [|exact Hk].
  unfold alloc. simpl.
  destruct (decide ((typ, id) = k)) as [<- | Hne].
  - rewrite lookup_insert_eq. eauto.
  - rewrite lookup_insert_ne by exact Hne. exact Hk.
Qed.

Lemma get_keeps_cached typ name cat reload st k :
  is_Some (cache st !! k) ->
  is_Some (cache (snd (get typ name cat reload st)) !! k).
Proof.
  intros Hk. rewrite get_unfold.
  destruct (table typ st) as [rows|]; [|exact Hk].
  destruct (chosen_id name cat rows (catalog st)) as [i|]; [|exact Hk].
  apply parse_keeps_cached. exact Hk.
Qed.

(** Nothing but [parse] writes to the cache: provided the loaders leave it
    alone, [load] (in every mode), [load_all] and [delete_catalog] leave
    every entry as it was, so that an object parsed from a catalog stays
    cached when that catalog is deleted or imported again. *)
Theorem loading_leaves_the_cache fil mode paths kwargs id st :
  loaders_leave_cache ->
  cache (snd (load fil mode st)) = cache st /\
  cache (snd (load_all paths kwargs st)) = cache st /\
  cache (snd (delete_catalog id st)) = cache st.
Proof.
  intros H. split; [exact (leaves_load fil mode H st)|].
  split; [exact (leaves_load_all paths kwargs H st) | reflexivity].
Qed.

(** The cache never forgets: through any sequence of calls of [parse],
    [get], [delete_catalog], [load] and [load_all], returning or raising,
    a key that is cached stays cached (its object is replaced only by a
    later parse of that key). *)
Theorem cache_never_forgets (calls : list call) (st : state) (k : string * Z) :
  loaders_leave_cache ->
  is_Some (cache st !! k) ->
  is_Some (cache (fold_left perform calls st) !! k).
Proof.
  intros H. revert st. induction calls as [|c calls IH]; intros st Hk; simpl;
    [exact Hk|].
  apply IH. destruct c; simpl.
  - apply parse_keeps_cached. exact Hk.
  - apply get_keeps_cached. exact Hk.
  - exact Hk.
  - rewrite (leaves_load fil mode H st). exact Hk.
  - rewrite (leaves_load_all paths kwargs H st). exact Hk.
Qed.

End WithCollaborators.

Arguments State {Obj} _ _ _ _ _ _.
Arguments catalog {Obj} _.
Arguments glass {Obj} _.
Arguments lens {Obj} _.
Arguments cache {Obj} _.
Arguments heap {Obj} _.
Arguments stdout {Obj} _.

(** *** A small store to run the methods on *)

(** A parser that keeps the stored text as the parsed object. *)
Definition text_parser (data : option string) : result string :=
  match data with
  | Some d => Ok d
  | None => Raise TypeError
  end.

(** A loader that records [fil] as a fresh catalog with id 9. *)
Definition file_loader (fil : string) : M string unit :=
  fun st =>
    (Ok tt,
     State (catalog st ++ [CatalogRow 9 "imported" "agf" (Some fil) None None])
       (glass st) (lens st) (cache st) (heap st) (stdout st)).

(** On disk both catalog files are newer than their rows; only ohara.agf
    has changed its size. *)
Definition disk (fil : string) : option stat_result :=
  if String.eqb fil "catalog/schott.agf" then Some (Stat 200 10)
  else if String.eqb fil "catalog/ohara.agf" then Some (Stat 200 12)
  else None.

Definition store : state string :=
  State
    [CatalogRow 1 "schott" "agf" (Some "catalog/schott.agf") (Some 100%Q) (Some 10%Z);
     CatalogRow 2 "ohara" "agf" (Some "catalog/ohara.agf") (Some 100%Q) (Some 10%Z)]
    [ItemRow 7 "BK7" 1 (Some "NM BK7 1 1.5168 64.17");
     ItemRow 8 "S-BSL7" 2 (Some "NM S-BSL7 1 1.5163 64.14")]
    [] ∅ [] [].

Definition get_in (typ name : string) (cat : option string) (reload : bool) :=
  get string text_parser text_parser text_parser text_parser text_parser
    typ name cat reload.

Definition parse_in (typ : string) (id : Z) (reload : bool) :=
  parse string text_parser text_parser text_parser text_parser text_parser
    typ id reload.

Definition load_in (fil mode : string) :=
  load string file_loader file_loader file_loader file_loader disk fil mode.

Example get_finds_any_case :
  get_in "glass" "bk7" (Some "SCHOTT") false store
  = parse_in "glass" 7 false store.
Proof. reflexivity. Qed.

Example splitext_examples :
  path_splitext_ext (path_split_tail "catalog/schott.agf") = ".agf" /\
  path_splitext_ext (path_split_tail "lib.d/README") = EmptyString /\
  path_splitext_ext (path_split_tail "catalog/.agf") = EmptyString /\
  lower (path_splitext_ext (path_split_tail "A.b/MISC.ZMF")) = ".zmf".
Proof. repeat split. Qed.

Lemma get_raises_not_found_witness :
  get_in "glass" "SF11" (Some "schott") false store
  = (Raise (KeyError "glass schott/SF11 not found"), store) /\
  get_in "lens" "BK7" None false store
  = (Raise (KeyError "lens None/BK7 not found"), store).
Proof.
  split.
  - apply (get_raises_not_found string text_parser text_parser text_parser
             text_parser text_parser "glass" "SF11" (Some "schott") false store).
    + left. reflexivity.
    + intros rows r [= <-] Hin [Hname _].
      destruct Hin as [<- | [<- | []]]; discriminate Hname.
  - apply (get_raises_not_found string text_parser text_parser text_parser
             text_parser text_parser "lens" "BK7" None false store).
    + right. reflexivity.
    + intros rows r [= <-] [].
Defined.

(** C9 as stated fails: schott.agf is newer on disk than its row (and so
    "changed" in that sense), yet [load] under "refresh" returns
    without importing it, where an import would have replaced the row. *)
Lemma load_refresh_skips_newer_file_of_same_size :
  changed_on_disk (Stat 200 10) 100 10 /\
  load_in "catalog/schott.agf" "refresh" store = (Ok tt, store) /\
  file_loader "catalog/schott.agf"
    (reimport_state string "catalog/schott.agf" 1 store) <> (Ok tt, store).
Proof.
  split; [left; reflexivity|].
  split; [reflexivity|].
  intros H. discriminate H.
Qed.

Lemma load_refresh_rule_witness :
  load_in "notes.txt" "reload" store = (Ok tt, store) /\
  load_in "catalog/ohara.agf" "refresh" store
  = file_loader "catalog/ohara.agf"
      (reimport_state string "catalog/ohara.agf" 2 store) /\
  load_in "catalog/schott.agf" "refresh" store = (Ok tt, store).
Proof.
  split; [|split].
  - apply (load_refresh_rule string file_loader file_loader file_loader
             file_loader disk "notes.txt" store).
    reflexivity.
  - refine (proj1 (proj2 (load_refresh_rule string file_loader file_loader
             file_loader file_loader disk "catalog/ohara.agf" store)
             file_loader (CatalogRow 2 "ohara" "agf" (Some "catalog/ohara.agf")
                            (Some 100%Q) (Some 10%Z))
             (Stat 200 12) 100%Q 10%Z eq_refl eq_refl eq_refl eq_refl eq_refl) _).
    split; [reflexivity | discriminate].
  - refine (proj2 (proj2 (load_refresh_rule string file_loader file_loader
             file_loader file_loader disk "catalog/schott.agf" store)
             file_loader (CatalogRow 1 "schott" "agf" (Some "catalog/schott.agf")
                            (Some 100%Q) (Some 10%Z))
             (Stat 200 10) 100%Q 10%Z eq_refl eq_refl eq_refl eq_refl eq_refl) _).
    intros [_ Hsize]. apply Hsize. reflexivity.
Defined.


Lemma load_reload_and_first_import_witness :
  load_in "catalog/schott.agf" "reload" store
  = file_loader "catalog/schott.agf"
      (reimport_state string "catalog/schott.agf" 1 store) /\
  load_in "catalog/hoya.AGF" "refresh" store
  = file_loader "catalog/hoya.AGF" (snd (print string "loading catalog/hoya.AGF" store)).
Proof.
  split.
  - refine (proj1 (load_reload_and_first_import string file_loader file_loader
             file_loader file_loader disk "catalog/schott.agf" store file_loader
             eq_refl)
             (CatalogRow 1 "schott" "agf" (Some "catalog/schott.agf")
                (Some 100%Q) (Some 10%Z)) eq_refl).
  - refine (proj2 (load_reload_and_first_import string file_loader file_loader
             file_loader file_loader disk "catalog/hoya.AGF" store file_loader
             eq_refl) eq_refl "refresh").
Defined.

Lemma parse_reload_reads_the_row_again_witness :
  let parsed := snd (parse_in "glass" 7 false store) in
  let again := parse_in "glass" 7 true parsed in
  (exists rows data format parser obj,
     table string "glass" parsed = Some rows /\
     head (select_data_format 7 rows (catalog parsed)) = Some (data, format) /\
     parsers string text_parser text_parser text_parser text_parser
       text_parser format = Some parser /\
     parser data = Ok obj /\
     heap (snd again) !! 1%nat = Some obj /\
     cache (snd again) !! ("glass", 7%Z) = Some 1%nat) /\
  (forall c,
     fst (parse_in "glass" 7 true
            (State (catalog parsed) (glass parsed) (lens parsed) c
               (heap parsed) (stdout parsed)))
     = Ok 1%nat).
Proof.
  exact (parse_reload_reads_the_row_again string text_parser text_parser
           text_parser text_parser text_parser "glass" 7 1%nat
           (snd (parse_in "glass" 7 false store))
           (snd (parse_in "glass" 7 true (snd (parse_in "glass" 7 false store))))
           eq_refl).
Defined.

Lemma get_returns_a_matching_row_witness :
  exists rows row,
    table string "glass" store = Some rows /\ In row rows /\
    matches string "s-bsl7" None store row /\
    parse_in "glass" (item_id row) false store
    = (Ok 0%nat, snd (get_in "glass" "s-bsl7" None false store)).
Proof.
  exact (get_returns_a_matching_row string text_parser text_parser text_parser
           text_parser text_parser "glass" "s-bsl7" None false 0%nat store
           (snd (get_in "glass" "s-bsl7" None false store)) eq_refl).
Defined.

(** *** More of the small store: directories, old rows *)

(** Three directories; only "catalog" holds catalog files. *)
Definition dirs (path : string) : option (list string) :=
  if String.eqb path "catalog" then Some ["schott.agf"; "ohara.agf"; "README"]
  else if String.eqb path "docs" then Some ["index.html"; "notes.txt"]
  else if String.eqb path "pics" then Some [".agf"; "lens.png"]
  else None.

(** A store whose rows come from an older import: hoya.agf was recorded
    without a date, and gone.agf is no longer on disk. *)
Definition old_store : state string :=
  State
    [CatalogRow 3 "hoya" "agf" (Some "catalog/hoya.agf") None (Some 10%Z);
     CatalogRow 4 "gone" "agf" (Some "catalog/gone.agf") (Some 100%Q) (Some 10%Z)]
    [] [] ∅ [] [].

Definition old_disk (fil : string) : option stat_result :=
  if String.eqb fil "catalog/hoya.agf" then Some (Stat 50 12) else None.

Definition load_all_in (paths : list string) (kwargs : option string) :=
  load_all string file_loader file_loader file_loader file_loader disk dirs
    paths kwargs.

Definition perform_in :=
  perform string text_parser text_parser text_parser text_parser text_parser
    file_loader file_loader file_loader file_loader disk dirs.

(** The store after S-BSL7 has been parsed: one object, cached. *)
Definition warm_store : state string := snd (parse_in "glass" 8 false store).

Lemma store_keys_unique : keys_unique string store.
Proof.
  unfold keys_unique. simpl.
  repeat split; repeat constructor; simpl; intuition discriminate.
Qed.

Lemma store_consistent : consistent string store.
Proof.
  split; [exact store_keys_unique|].
  intros r [[<- | [<- | []]] | []]; simpl; eexists; split;
    [left; reflexivity | reflexivity | right; left; reflexivity | reflexivity].
Qed.

Example load_all_imports_a_directory :
  fst (load_all_in ["docs"; "catalog"] (Some "reload") store) = Ok tt /\
  stdout (snd (load_all_in ["docs"; "catalog"] (Some "reload") store))
  = ["loading catalog/schott.agf"; "loading catalog/ohara.agf"] /\
  fst (load_all_in ["catalog"; "nowhere"] None store) = Raise OSError.
Proof. repeat split. Qed.

Lemma failed_lookup_changes_nothing_witness :
  snd (get_in "lens" "AC127-025-A" (Some "thorlabs") true warm_store) = warm_store.
Proof.
  apply (failed_lookup_changes_nothing string text_parser text_parser
           text_parser text_parser text_parser "lens" 0 "AC127-025-A"
           (Some "thorlabs") true
           (KeyError "lens thorlabs/AC127-025-A not found") warm_store).
  right. reflexivity.
Defined.

Lemma lookup_never_writes_rows_witness :
  let st' := snd (get_in "glass" "bk7" None true warm_store) in
  catalog st' = catalog warm_store /\ glass st' = glass warm_store /\
  lens st' = lens warm_store /\ stdout st' = stdout warm_store.
Proof.
  apply (lookup_never_writes_rows string text_parser text_parser text_parser
           text_parser text_parser "glass" 0 "bk7" None true (Ok 1%nat)
           warm_store).
  right. reflexivity.
Defined.

Lemma get_again_returns_same_object_witness :
  let st' := snd (get_in "glass" "bk7" None true store) in
  get_in "glass" "bk7" None false st' = (Ok 0%nat, st').
Proof.
  apply (get_again_returns_same_object string text_parser text_parser
           text_parser text_parser text_parser "glass" "bk7" None true 0%nat
           store).
  reflexivity.
Defined.

Lemma get_ignores_case_witness :
  get_in "glass" "BK7" (Some "SCHOTT") false store
  = (Ok 0%nat, snd (get_in "glass" "bk7" (Some "Schott") false store)).
Proof.
  apply (get_ignores_case string text_parser text_parser text_parser
           text_parser text_parser "glass" "bk7" "BK7" (Some "Schott")
           (Some "SCHOTT") false 0%nat store);
    reflexivity.
Defined.

Lemma get_after_delete_catalog_witness :
  let parsed := snd (parse_in "glass" 7 false store) in
  let st' := snd (delete_catalog string 1 parsed) in
  get_in "glass" "BK7" None false st'
  = (Raise (KeyError "glass None/BK7 not found"), st') /\
  parse_in "glass" 7 false st' = (Ok 0%nat, st').
Proof.
  split; [|reflexivity].
  apply (get_after_delete_catalog string text_parser text_parser text_parser
           text_parser text_parser "glass" "BK7" None false 1
           (snd (parse_in "glass" 7 false store))).
  - left. reflexivity.
  - intros rows row [= <-] [<- | [<- | []]] [Hname _];
      [reflexivity | discriminate Hname].
Defined.

Lemma parse_reads_the_row_witness :
  exists st',
    parse_in "glass" 7 false store = (Ok 0%nat, st') /\
    heap st' = ["NM BK7 1 1.5168 64.17"] /\
    cache st' = <[("glass", 7%Z) := 0%nat]> ∅.
Proof.
  apply (parse_reads_the_row string text_parser text_parser text_parser
           text_parser text_parser "glass"
           (ItemRow 7 "BK7" 1 (Some "NM BK7 1 1.5168 64.17"))
           (CatalogRow 1 "schott" "agf" (Some "catalog/schott.agf")
              (Some 100%Q) (Some 10%Z))
           text_parser "NM BK7 1 1.5168 64.17" false (glass store) store).
  - exact store_keys_unique.
  - reflexivity.
  - left. reflexivity.
  - left. reflexivity.
  - reflexivity.
  - reflexivity.
  - reflexivity.
  - right. reflexivity.
Defined.

(** A store with a catalog in a format no parser is registered for. *)
Definition odd_store : state string :=
  State [CatalogRow 5 "misc" "zmf" (Some "catalog/misc.zmf") None None]
        [] [ItemRow 11 "LB1471" 5 (Some "VERS 1")] ∅ [] [].

Lemma parse_without_row_or_parser_witness :
  parse_in "lens" 12 false odd_store = (Raise TypeError, odd_store) /\
  parse_in "lens" 11 false odd_store = (Raise (KeyError "zmf"), odd_store).
Proof.
  split.
  - apply (proj1 (parse_without_row_or_parser string text_parser text_parser
                    text_parser text_parser text_parser "lens" 12 false
                    (lens odd_store) odd_store eq_refl (or_intror eq_refl))).
    intros row [<- | []]. discriminate.
  - refine (proj2 (parse_without_row_or_parser string text_parser text_parser
                     text_parser text_parser text_parser "lens" 11 false
                     (lens odd_store) odd_store eq_refl (or_intror eq_refl))
              (ItemRow 11 "LB1471" 5 (Some "VERS 1"))
              (CatalogRow 5 "misc" "zmf" (Some "catalog/misc.zmf") None None)
              _ (or_introl eq_refl) eq_refl (or_introl eq_refl) eq_refl eq_refl).
    unfold keys_unique. simpl.
    repeat split; repeat constructor; simpl; intuition discriminate.
Defined.

Lemma delete_catalog_keeps_consistency_witness :
  consistent string (snd (delete_catalog string 1 store)).
Proof.
  exact (delete_catalog_keeps_consistency string 1 store store_consistent).
Defined.

Lemma load_all_skips_other_files_witness :
  load_all_in ["docs"; "pics"] None store = (Ok tt, store).
Proof.
  apply (load_all_skips_other_files string file_loader file_loader file_loader
           file_loader disk dirs ["docs"; "pics"] None store).
  intros path [<- | [<- | []]]; eexists; (split; [reflexivity|]);
    intros i [<- | [<- | []]]; reflexivity.
Defined.

Lemma load_refresh_with_empty_cells_witness :
  load string file_loader file_loader file_loader file_loader old_disk
    "catalog/hoya.agf" "refresh" old_store
  = file_loader "catalog/hoya.agf"
      (reimport_state string "catalog/hoya.agf" 3 old_store).
Proof.
  refine (proj1 (load_refresh_with_empty_cells string file_loader file_loader
            file_loader file_loader old_disk "catalog/hoya.agf" old_store
            file_loader
            (CatalogRow 3 "hoya" "agf" (Some "catalog/hoya.agf") None (Some 10%Z))
            (Stat 50 12) eq_refl eq_refl eq_refl) _).
  split; [exact I | discriminate].
Defined.

Lemma load_of_a_vanished_file_witness :
  load string file_loader file_loader file_loader file_loader old_disk
    "catalog/gone.agf" "refresh" old_store = (Raise OSError, old_store) /\
  load string file_loader file_loader file_loader file_loader old_disk
    "catalog/gone.agf" "reload" old_store
  = file_loader "catalog/gone.agf"
      (reimport_state string "catalog/gone.agf" 4 old_store) /\
  load string file_loader file_loader file_loader file_loader old_disk
    "catalog/gone.agf" "add" old_store
  = file_loader "catalog/gone.agf"
      (snd (print string "loading catalog/gone.agf" old_store)).
Proof.
  exact (load_of_a_vanished_file string file_loader file_loader file_loader
           file_loader old_disk "catalog/gone.agf" old_store file_loader
           (CatalogRow 4 "gone" "agf" (Some "catalog/gone.agf")
              (Some 100%Q) (Some 10%Z))
           eq_refl eq_refl eq_refl).
Defined.

Lemma file_loaders_leave_cache :
  loaders_leave_cache string file_loader file_loader file_loader file_loader.
Proof.
  intros fil. split; [|split; [|split]]; intros st0; reflexivity.
Qed.

Lemma loading_leaves_the_cache_witness :
  cache (snd (load_in "catalog/ohara.agf" "refresh" warm_store))
  = cache warm_store /\
  cache (snd (load_all_in ["catalog"] (Some "reload") warm_store))
  = cache warm_store /\
  cache (snd (delete_catalog string 2 warm_store)) = cache warm_store.
Proof.
  exact (loading_leaves_the_cache string file_loader file_loader file_loader
           file_loader disk dirs "catalog/ohara.agf" "refresh" ["catalog"]
           (Some "reload") 2 warm_store file_loaders_leave_cache).
Defined.

Lemma cache_never_forgets_witness :
  is_Some
    (cache
       (fold_left perform_in
          [CallGet "glass" "bk7" None false;
           CallLoad "catalog/ohara.agf" "refresh";
           CallDeleteCatalog 2;
           CallLoadAll ["docs"; "nowhere"] None;
           CallParse "glass" 8 true]
          warm_store)
     !! ("glass", 8%Z)).
Proof.
  apply (cache_never_forgets string text_parser text_parser text_parser
           text_parser text_parser file_loader file_loader file_loader
           file_loader disk dirs _ warm_store ("glass", 8%Z)
           file_loaders_leave_cache).
  exists 0%nat. reflexivity.
Defined.

End Library.

(** ** The frame transforms of a surface (rayopt.elements, exercised by
    tests/test_elements.py)

    rayopt.elements is not among the sources: what follows is modelled from
    the spec, over the real numbers first and then, for the translation and
    the matrix product, in binary64 as numpy computes them. *)

Module Optics.

Open Scope R_scope.

(** *** Vectors and matrices *)

Record vec3 : Type := V3 { vx : R; vy : R; vz : R }.

(** A matrix, by its rows. *)
Record mat3 : Type := M3 { row1 : vec3; row2 : vec3; row3 : vec3 }.

Definition vadd (a b : vec3) : vec3 := V3 (vx a + vx b) (vy a + vy b) (vz a + vz b).
Definition vsub (a b : vec3) : vec3 := V3 (vx a - vx b) (vy a - vy b) (vz a - vz b).
Definition vscale (k : R) (a : vec3) : vec3 := V3 (k * vx a) (k * vy a) (k * vz a).
Definition vdot (a b : vec3) : R := vx a * vx b + vy a * vy b + vz a * vz b.
Definition vnorm (a : vec3) : R := sqrt (vdot a a).
Definition normalize (a : vec3) : vec3 := vscale (/ vnorm a) a.
Definition unit (a : vec3) : Prop := vdot a a = 1.

Definition ez : vec3 := V3 0 0 1.

Definition col1 (m : mat3) : vec3 := V3 (vx (row1 m)) (vx (row2 m)) (vx (row3 m)).
Definition col2 (m : mat3) : vec3 := V3 (vy (row1 m)) (vy (row2 m)) (vy (row3 m)).
Definition col3 (m : mat3) : vec3 := V3 (vz (row1 m)) (vz (row2 m)) (vz (row3 m)).

Definition transpose (m : mat3) : mat3 := M3 (col1 m) (col2 m) (col3 m).

(** [np.dot(x, m)]: a row vector times a matrix. *)
Definition vecmat (x : vec3) (m : mat3) : vec3 :=
  V3 (vdot x (col1 m)) (vdot x (col2 m)) (vdot x (col3 m)).

Definition mmul (a b : mat3) : mat3 :=
  M3 (vecmat (row1 a) b) (vecmat (row2 a) b) (vecmat (row3 a) b).

Definition I3 : mat3 := M3 (V3 1 0 0) (V3 0 1 0) (V3 0 0 1).

Definition orthogonal (m : mat3) : Prop :=
  mmul m (transpose m) = I3 /\ mmul (transpose m) m = I3.

(** The elemental rotations about the first, second and third axis. *)
Definition rot_x (a : R) : mat3 :=
  M3 (V3 1 0 0) (V3 0 (cos a) (- sin a)) (V3 0 (sin a) (cos a)).
Definition rot_y (b : R) : mat3 :=
  M3 (V3 (cos b) 0 (sin b)) (V3 0 1 0) (V3 (- sin b) 0 (cos b)).
Definition rot_z (c : R) : mat3 :=
  M3 (V3 (cos c) (- sin c) 0) (V3 (sin c) (cos c) 0) (V3 0 0 1).

(** *** Materials and surfaces *)

(** Modelled from the spec: the materials of rayopt (ModelMaterial and
    mirror are not among the sources).  Spec 4.2 and 9: a dielectric with
    index [nd] and Abbe number [vd], or the mirror. *)
Inductive Material : Type :=
| Dielectric (nd vd : R)
| Mirror.

(** Modelled from the spec: the class Spheroid (rayopt.elements is not
    among the sources), with the attributes of spec 3; a surface may come
    without material, as those of TransformCase and PupilCase do. *)
Record Surface : Type := Spheroid {
  curvature : R;
  distance : R;
  direction : vec3;
  angles : option (R * R * R);
  radius : option R;
  angular_radius : option R;
  material : option Material
}.

(** Modelled from the spec: the attribute [offset] of a surface (spec 3:
    "offset = distance * direction"). *)
Definition offset (s : Surface) : vec3 := vscale (distance s) (direction s).

(** Modelled from the spec: assignment to [direction].  The attribute holds
    a unit vector (spec 3); TransformCase builds its surface from (1, 3, 4)
    and test_rot finds [direction * 3] as the image of a vector of length 3
    under a rotation, so the assigned vector is normalised. *)
Definition set_direction (v : vec3) (s : Surface) : Surface :=
  Spheroid (curvature s) (distance s) (normalize v) (angles s) (radius s)
    (angular_radius s) (material s).

(** Modelled from the spec: the tilt of the normal frame (spec 4.1), the
    three elemental rotations in the intrinsic order first axis, second
    axis, third axis; no tilt without [angles]. *)
Definition tilt (a : option (R * R * R)) : mat3 :=
  match a with
  | Some (a1, a2, a3) => mmul (mmul (rot_x a1) (rot_y a2)) (rot_z a3)
  | None => I3
  end.

(** Modelled from the spec: the realignment of the axis.  Spec 4.1 says
    only that it is the identity for the default axis and otherwise "the
    rotation [that] maps the default axis onto direction"; the one taken
    here turns about the axis orthogonal to both (a half turn about the
    first axis when [d] is opposite to the default axis). *)
Definition align_z (d : vec3) : mat3 :=
  if Req_EM_T (vz d) (-1) then M3 (V3 1 0 0) (V3 0 (-1) 0) (V3 0 0 (-1))
  else
    let k := / (1 + vz d) in
    M3 (V3 (1 - k * vx d * vx d) (- k * vx d * vy d) (- vx d))
       (V3 (- k * vx d * vy d) (1 - k * vy d * vy d) (- vy d))
       d.

(** Modelled from the spec: the rotation of a surface and the four frame
    transforms of spec 4.1 (rayopt.elements is not among the sources).  The
    tilt is composed "on top of any axis realignment from direction";
    [from_normal] and [to_normal] rotate only, [to_axis] translates by
    [offset] and de-rotates, [from_axis] rotates and translates.  Vectors
    are rows, as in test_rot, where angles (.1, 0, 0) send (0, 0, 3) to
    (0, 3 sin .1, 3 cos .1). *)
Definition rotation (s : Surface) : mat3 :=
  mmul (tilt (angles s)) (align_z (direction s)).

(** Modelled from the spec: [from_normal], rotation only. *)
Definition from_normal (s : Surface) (x : vec3) : vec3 := vecmat x (rotation s).

(** Modelled from the spec: [to_normal], the inverse rotation only. *)
Definition to_normal (s : Surface) (x : vec3) : vec3 :=
  vecmat x (transpose (rotation s)).

(** Modelled from the spec: [to_axis], translate by [offset] and de-rotate. *)
Definition to_axis (s : Surface) (x : vec3) : vec3 :=
  to_normal s (vsub x (offset s)).

(** Modelled from the spec: [from_axis], rotate and translate by [offset]. *)
Definition from_axis (s : Surface) (x : vec3) : vec3 :=
  vadd (from_normal s x) (offset s).

(** The surface of TransformCase: Spheroid(distance=2., direction=(1, 3,
    4.), angles=(.3, .2, .1)). *)
Definition transform_case : Surface :=
  set_direction (V3 1 3 4)
    (Spheroid 0 2 ez (Some (3 / 10, 2 / 10, 1 / 10)) None None None).

(** *** The same transforms in binary64 *)

Module B64.

Local Open Scope float_scope.

Record vec3 : Type := V3 { vx : float; vy : float; vz : float }.
Record mat3 : Type := M3 { row1 : vec3; row2 : vec3; row3 : vec3 }.

Definition vadd (a b : vec3) : vec3 := V3 (vx a + vx b) (vy a + vy b) (vz a + vz b).
Definition vsub (a b : vec3) : vec3 := V3 (vx a - vx b) (vy a - vy b) (vz a - vz b).
Definition vscale (k : float) (a : vec3) : vec3 := V3 (k * vx a) (k * vy a) (k * vz a).
Definition vdot (a b : vec3) : float := vx a * vx b + vy a * vy b + vz a * vz b.

Definition col1 (m : mat3) : vec3 := V3 (vx (row1 m)) (vx (row2 m)) (vx (row3 m)).
Definition col2 (m : mat3) : vec3 := V3 (vy (row1 m)) (vy (row2 m)) (vy (row3 m)).
Definition col3 (m : mat3) : vec3 := V3 (vz (row1 m)) (vz (row2 m)) (vz (row3 m)).
Definition transpose (m : mat3) : mat3 := M3 (col1 m) (col2 m) (col3 m).

Definition vecmat (x : vec3) (m : mat3) : vec3 :=
  V3 (vdot x (col1 m)) (vdot x (col2 m)) (vdot x (col3 m)).

Definition I3 : mat3 := M3 (V3 1 0 0) (V3 0 1 0) (V3 0 0 1).

Definition ez : vec3 := V3 0 0 1.

(** Modelled from the spec: [offset], [to_axis] and [from_axis] as above,
    every operation rounded to binary64.  The rotation matrix is an
    argument: for the default axis and no tilt it is the identity (spec
    4.1), which is all that is needed here. *)
Definition offset (distance : float) (direction : vec3) : vec3 :=
  vscale distance direction.

Definition to_axis (rot : mat3) (distance : float) (direction x : vec3) : vec3 :=
  vecmat (vsub x (offset distance direction)) (transpose rot).

Definition from_axis (rot : mat3) (distance : float) (direction x : vec3) : vec3 :=
  vadd (vecmat x rot) (offset distance direction).

End B64.

(** *** Matrix algebra *)

Lemma vec3_eq a b : vx a = vx b -> vy a = vy b -> vz a = vz b -> a = b.
Proof. destruct a, b; simpl; intros -> -> ->; reflexivity. Qed.

Lemma mat3_eq a b :
  row1 a = row1 b -> row2 a = row2 b -> row3 a = row3 b -> a = b.
Proof. destruct a, b; simpl; intros -> -> ->; reflexivity. Qed.

Ltac by_components :=
  repeat match goal with
         | m : mat3 |- _ => destruct m
         | v : vec3 |- _ => destruct v
         end;
  repeat first [apply mat3_eq | apply vec3_eq];
  cbv [vecmat mmul transpose col1 col2 col3 row1 row2 row3 vdot vadd vsub
       vscale vx vy vz I3].

Lemma vecmat_mmul x a b : vecmat (vecmat x a) b = vecmat x (mmul a b).
Proof. by_components; ring. Qed.

Lemma vecmat_I3 x : vecmat x I3 = x.
Proof. by_components; ring. Qed.

Lemma mmul_assoc a b c : mmul (mmul a b) c = mmul a (mmul b c).
Proof. by_components; ring. Qed.

Lemma mmul_I3_l a : mmul I3 a = a.
Proof. by_components; ring. Qed.

Lemma mmul_I3_r a : mmul a I3 = a.
Proof. by_components; ring. Qed.

Lemma transpose_mmul a b :
  transpose (mmul a b) = mmul (transpose b) (transpose a).
Proof. by_components; ring. Qed.

Lemma vsub_vadd x o : vadd (vsub x o) o = x.
Proof. by_components; ring. Qed.

Lemma orthogonal_I3 : orthogonal I3.
Proof. split; by_components; ring. Qed.

Lemma orthogonal_mmul a b : orthogonal a -> orthogonal b -> orthogonal (mmul a b).
Proof.
  intros [Ha Ha'] [Hb Hb']. unfold orthogonal. rewrite transpose_mmul. split.
  - rewrite mmul_assoc, <- (mmul_assoc b), Hb, mmul_I3_l. exact Ha.
  - rewrite mmul_assoc, <- (mmul_assoc (transpose a)), Ha', mmul_I3_l. exact Hb'.
Qed.

Lemma sin_cos_1 a : sin a * sin a + cos a * cos a = 1.
Proof. exact (sin2_cos2 a). Qed.

Lemma orthogonal_rot_x a : orthogonal (rot_x a).
Proof.
  pose proof (sin_cos_1 a). unfold rot_x. split; by_components; try ring; lra.
Qed.

Lemma orthogonal_rot_y b : orthogonal (rot_y b).
Proof.
  pose proof (sin_cos_1 b). unfold rot_y. split; by_components; try ring; lra.
Qed.

Lemma orthogonal_rot_z c : orthogonal (rot_z c).
Proof.
  pose proof (sin_cos_1 c). unfold rot_z. split; by_components; try ring; lra.
Qed.

Lemma orthogonal_tilt a : orthogonal (tilt a).
Proof.
  destruct a as [[[a1 a2] a3]|]; simpl.
  - auto using orthogonal_mmul, orthogonal_rot_x, orthogonal_rot_y, orthogonal_rot_z.
  - exact orthogonal_I3.
Qed.

Lemma orthogonal_align_z d : unit d -> orthogonal (align_z d).
Proof.
  destruct d as [x y z]. unfold unit, align_z. cbv [vdot vx vy vz].
  intros Hu. destruct (Req_EM_T z (-1)) as [Hz|Hz].
  - split; by_components; ring.
  - set (k := / (1 + z)).
    assert (Hk : k * (1 + z) = 1) by (unfold k; field; lra).
    clearbody k.
    split; by_components; nsatz.
Qed.

Lemma align_z_maps d : unit d -> vecmat ez (align_z d) = d.
Proof.
  destruct d as [x y z]. unfold unit, align_z, ez. cbv [vdot vx vy vz].
  intros Hu. destruct (Req_EM_T z (-1)) as [Hz|Hz].
  - subst z. by_components; nra.
  - by_components; ring.
Qed.

Lemma align_z_default : align_z ez = I3.
Proof.
  unfold align_z, ez. cbv [vx vy vz].
  destruct (Req_EM_T 1 (-1)) as [H|_]; [lra|].
  by_components; field.
Qed.

Lemma orthogonal_rotation s : unit (direction s) -> orthogonal (rotation s).
Proof.
  intros Hd. apply orthogonal_mmul; [apply orthogonal_tilt|].
  apply orthogonal_align_z. exact Hd.
Qed.

(** The two scenarios of test_rot (spec 8): without tilt the image of
    (0, 0, 3) is [direction * 3]; on the default axis, the angles (a, 0, 0)
    send it to (0, 3 sin a, 3 cos a). *)
Lemma from_normal_untilted s :
  angles s = None -> unit (direction s) ->
  from_normal s (V3 0 0 3) = vscale 3 (direction s).
Proof.
  intros Ha Hd. unfold from_normal, rotation. rewrite Ha. simpl tilt.
  rewrite mmul_I3_l. rewrite <- (align_z_maps _ Hd) at 2.
  generalize (align_z (direction s)). intros m. unfold ez.
  by_components; ring.
Qed.

Lemma from_normal_tilted_x s a :
  angles s = Some (a, 0, 0) -> direction s = ez ->
  from_normal s (V3 0 0 3) = V3 0 (3 * sin a) (3 * cos a).
Proof.
  intros Ha Hd. unfold from_normal, rotation.
  rewrite Ha, Hd, align_z_default, mmul_I3_r.
  unfold tilt, rot_x, rot_y, rot_z. rewrite sin_0, cos_0.
  by_components; ring.
Qed.

Lemma normalize_unit v : vdot v v <> 0 -> unit (normalize v).
Proof.
  intros Hv. unfold unit, normalize, vnorm.
  assert (Hpos : 0 <= vdot v v).
  { destruct v as [x y z]. cbv [vdot vx vy vz]. nra. }
  assert (Hs : sqrt (vdot v v) * sqrt (vdot v v) = vdot v v)
    by (apply sqrt_sqrt; exact Hpos).
  assert (Hn : sqrt (vdot v v) <> 0).
  { intros H0. rewrite H0 in Hs. lra. }
  set (n := sqrt (vdot v v)) in *.
  replace (vdot (vscale (/ n) v) (vscale (/ n) v))
    with (/ n * / n * vdot v v)
    by (destruct v; cbv [vdot vscale vx vy vz]; ring).
  rewrite <- Hs. field. exact Hn.
Qed.

Lemma transform_case_unit : unit (direction transform_case).
Proof.
  apply normalize_unit. cbv [vdot vx vy vz]. lra.
Qed.

(** *** The inverse law *)

(** C5, over the real numbers: whatever the distance and the tilt angles of
    a surface, for a unit direction and every vector [x], going to the axis
    frame and back returns [x], and so does going to the normal frame and
    back.  Rounding is left out: see the next lemma. *)
Theorem from_to_frames_inverse (s : Surface) (x : vec3) :
  unit (direction s) ->
  from_axis s (to_axis s x) = x /\ from_normal s (to_normal s x) = x.
Proof.
  intros Hd. destruct (orthogonal_rotation s Hd) as [_ Hinv].
  assert (Hn : forall v, from_normal s (to_normal s v) = v).
  { intros v. unfold from_normal, to_normal.
    rewrite vecmat_mmul, Hinv. apply vecmat_I3. }
  split; [|apply Hn].
  unfold from_axis, to_axis. rewrite Hn. apply vsub_vadd.
Qed.

Lemma from_to_frames_inverse_witness :
  from_axis transform_case (to_axis transform_case (V3 1 2 3)) = V3 1 2 3 /\
  from_normal transform_case (to_normal transform_case (V3 1 2 3)) = V3 1 2 3.
Proof.
  exact (from_to_frames_inverse transform_case (V3 1 2 3) transform_case_unit).
Defined.

(** C5 as stated, with [==] on binary64 numbers, fails: for the surface
    Spheroid(distance=1e17) on the default axis and without tilt (identity
    rotation), the vector (0, 0, 1) comes back from the axis frame as
    (0, 0, 0), since 1 - 1e17 rounds to -1e17. *)
Lemma from_to_axis_inexact_in_binary64 :
  let x := B64.V3 0 0 1 in
  let back :=
    B64.from_axis B64.I3 1e17 B64.ez (B64.to_axis B64.I3 1e17 B64.ez x) in
  back = B64.V3 0 0 0 /\ PrimFloat.eqb (B64.vz back) (B64.vz x) = false.
Proof. vm_compute. split; reflexivity. Qed.

End Optics.
